(** * UART device abstraction (uart.hpp): model and properties

    A shallow embedding of [namespace UART] of uart.hpp.  The header is a
    design sketch: the data types, the constructor, the destructor and the
    lock envelope of [Device::read] are written out, while the bodies of
    [open], [close] and [write] and the platform-specific statements inside
    the constructor and [read] are elided ([{...}] and [... Implementation ...]).

    - What uart.hpp writes out is transcribed statement by statement.
    - The elided statements are fields of the class [Platform].  Those of
      the constructor set up the implementation-specific members.  Those
      of [read] are arbitrary: they see and may change the whole Device
      and the whole world (heap, locks, clock, events), and they either
      return a Response of their own or fall through to the final
      [return] of the header.  Nothing is proved here about what [read]
      does once it has reached them.
    - [open], [close] and [write], whose bodies are absent, are modelled
      from the specification; each such definition says so. *)

From Stdlib Require Import NArith Lia.
From stdpp Require Import base option list numbers.

Local Open Scope N_scope.

(** ** Enumerations *)

Module Parity.
Inductive t := None | Odd | Even.
End Parity.

(** The enumerators of [StopBits] are elided in uart.hpp; a value is
    represented by its underlying integer. *)
Module StopBits.
Inductive t := Value (n : N).
End StopBits.

Module BitOrder.
Inductive t := LeastSignificant | MostSignificant.
End BitOrder.

(** [ErrorCode] ends in [...] in uart.hpp: [Other] stands for the
    enumerators that are not listed.  The spellings are the header's. *)
Module ErrorCode.
Inductive t :=
| Okay
| NoConnnection
| Locked
| Interupt
| BufferUninitialized
| Other (n : nat).

Definition is_okay (c : t) : bool :=
  match c with Okay => true | _ => false end.
End ErrorCode.

(** ** Plain data *)

(** [size_t] and [uint32] members are naturals; no arithmetic is done on
    them.  [buffer_size] has the default member initialiser 0. *)
Record Configuration := {
  baud_rate : N;
  data_bits_size : N;
  parity_type : Parity.t;
  stop_bits : StopBits.t;
  bit_order : BitOrder.t;
  timeout_ms : N;
  buffer_size : N
}.

Record Status := {
  code : ErrorCode.t;
  has_error : bool
}.

(** A [std::vector<std::byte>]: its elements and its reserved capacity. *)
Record Vec := {
  bytes : list Byte.byte;
  capacity : N
}.

(** Pointers are addresses into the heap of vectors (or into the table of
    locks); [None] is [nullptr]. *)
Abbreviation nullptr := (@None nat).

Record Response := {
  status : Status;
  data : option nat
}.

(** ** Heap of byte vectors

    A cell is [Some v] while the vector is alive and [None] once deleted. *)
Definition Heap := list (option Vec).

Definition empty_vec : Vec := {| bytes := []; capacity := 0 |}.

(** [std::vector::reserve]: the capacity becomes at least [n] (the
    standard allows more; exactly [n] is what the usual libraries give). *)
Definition reserve (n : N) (v : Vec) : Vec :=
  if capacity v <? n then {| bytes := bytes v; capacity := n |} else v.

(** [new std::vector<std::byte>{}]: a fresh address and the grown heap. *)
Definition new_vec (h : Heap) : nat * Heap :=
  (length h, h ++ [Some empty_vec]).

Definition delete_vec (a : nat) (h : Heap) : Heap := <[a := None]> h.

(** ** Locks ([std::mutex], [std::timed_mutex])

    [timed] is what [dynamic_cast<std::timed_lock>] finds out.  A lock is
    free, held by the caller of the Device, or held elsewhere for another
    [remaining_ms] milliseconds. *)
Inductive LockState :=
| Free
| Held
| HeldElsewhere (remaining_ms : N).

Record Lockable := {
  timed : bool;
  state : LockState
}.

(** What a call did, in order: lock operations and transport operations. *)
Inductive Event :=
| TryLock (l : nat)
| TryLockFor (l : nat) (ms : N)
| Unlock (l : nat)
| Receive
| Transmit (n : nat).

Record World := {
  heap : Heap;
  locks : list Lockable;
  clock : N;
  trace : list Event
}.

Definition set_heap (h : Heap) (w : World) : World :=
  {| heap := h; locks := locks w; clock := clock w; trace := trace w |}.

Definition set_lock_state (l : nat) (s : LockState) (w : World) : World :=
  {| heap := heap w;
     locks := alter (fun lk => {| timed := timed lk; state := s |}) l (locks w);
     clock := clock w; trace := trace w |}.

Definition wait (ms : N) (w : World) : World :=
  {| heap := heap w; locks := locks w; clock := clock w + ms; trace := trace w |}.

Definition record_event (e : Event) (w : World) : World :=
  {| heap := heap w; locks := locks w; clock := clock w; trace := trace w ++ [e] |}.

(** [try_lock()]: never waits. *)
Definition try_lock (l : nat) (lk : Lockable) (w : World) : bool * World :=
  let w := record_event (TryLock l) w in
  match state lk with
  | Free => (true, set_lock_state l Held w)
  | Held | HeldElsewhere _ => (false, w)
  end.

(** [try_lock_for(d)]: waits until the lock is free, [d] milliseconds at
    most. *)
Definition try_lock_for (l : nat) (lk : Lockable) (d : N) (w : World) : bool * World :=
  let w := record_event (TryLockFor l d) w in
  match state lk with
  | Free => (true, set_lock_state l Held w)
  | Held => (false, wait d w)
  | HeldElsewhere r =>
      if r <=? d then (true, set_lock_state l Held (wait r w))
      else (false, set_lock_state l (HeldElsewhere (r - d)) (wait d w))
  end.

Definition unlock (l : nat) (w : World) : World :=
  set_lock_state l Free (record_event (Unlock l) w).

(** ** Device *)

(** Modelled from the spec: the lifecycle state of sections 3 and 4.4
    ([Closed], or open with exactly one buffer strategy).  uart.hpp keeps
    it behind [is_open()], among the implementation-specific members. *)
Inductive Mode := Closed | OwnedBuffer | CallerBuffer | Callback.

(** The members uart.hpp declares ([config], [lock], [buffer],
    [callback]), then the lifecycle state and the platform's members.
    The types of the callback and of the platform's members are the
    platform's; [Device], below, is this record at those types. *)
Record DeviceOf (Impl ReadCallback : Type) := {
  config : Configuration;
  lock : option nat;
  buffer : option nat;
  callback : option ReadCallback;
  mode : Mode;
  impl : Impl
}.

Arguments config {Impl ReadCallback} _.
Arguments lock {Impl ReadCallback} _.
Arguments buffer {Impl ReadCallback} _.
Arguments callback {Impl ReadCallback} _.
Arguments mode {Impl ReadCallback} _.
Arguments impl {Impl ReadCallback} _.

(** ** The platform

    What uart.hpp leaves to the platform.  [Impl] stands for the
    [... Implementation specific UART data members ...]; [ctor_impl] for
    [... ctor Implementation ...], which receives the configuration and
    the device identifier.  [DEFAULT_BUFFER_SIZE] is used by the
    constructor and defined nowhere in the header.  [ReadCallback] is the
    [std::function<void(Status, std::vector<std::byte>)>] a caller
    registers; its body is the caller's.

    [read_impl] stands for the [... Implementation ...] inside [read].
    It is any statement sequence of a member function: it receives the
    Device and the world and gives them back changed as it pleases (it
    may release the lock, assign members, fill vectors, let time pass),
    together with [Some r] when it returns the Response [r] itself and
    [None] when it falls through to the statement after it.

    Modelled from the spec: the transport collaborator of section 6,
    which the header does not declare: [acquire] (None is NoConnection),
    [release] and [transmit]; and [reopen_error], the code with which
    reopening an open Device fails, which section 4.3 does not name. *)
Class Platform := {
  Impl : Type;
  ReadCallback : Type;
  DEFAULT_BUFFER_SIZE : N;
  ctor_impl : Configuration -> N -> Impl;
  read_impl :
    DeviceOf Impl ReadCallback -> World ->
    option Response * DeviceOf Impl ReadCallback * World;
  acquire : Impl -> option Impl;
  release : Impl -> Impl;
  transmit : Impl -> list Byte.byte -> Impl * ErrorCode.t;
  reopen_error : ErrorCode.t
}.

Section Device.
Context {P : Platform}.

Definition Device : Type := DeviceOf Impl ReadCallback.

Definition is_open (d : Device) : bool :=
  match mode d with Closed => false | _ => true end.

Definition set_impl (i : Impl) (d : Device) : Device :=
  {| config := config d; lock := lock d; buffer := buffer d;
     callback := callback d; mode := mode d; impl := i |}.

(** [Device::Device].  The member [buffer] has no initialiser: when
    [buffer_size] is 0 it keeps the indeterminate value [uninit] that
    the storage held.  [callback] is an empty [std::function]. *)
Definition Device_ctor (uninit : option nat) (config : Configuration)
    (device_id : N) (lock : option nat) (w : World) : Device * World :=
  let '(buffer, h) :=
    if 0 <? buffer_size config then
      let '(a, h) := new_vec (heap w) in
      (Some a, alter (fmap (reserve DEFAULT_BUFFER_SIZE)) a h)
    else (uninit, heap w) in
  ({| config := config; lock := lock; buffer := buffer; callback := None;
      mode := Closed; impl := ctor_impl config device_id |},
   set_heap h w).

Definition okay : Status :=
  {| code := ErrorCode.Okay; has_error := false |}.

Definition failed (c : ErrorCode.t) : Status :=
  {| code := c; has_error := negb (ErrorCode.is_okay c) |}.

(** The statements of [read] after the lock envelope: the elided
    statements, which may return a Response themselves, then
    [return {{ErrorCode::Okay, false}, this->buffer}]. *)
Definition read_body (d : Device) (w : World) : Response * Device * World :=
  let '(returned, d, w) := read_impl d w in
  match returned with
  | Some r => (r, d, w)
  | None => ({| status := okay; data := buffer d |}, d, w)
  end.

Definition locked_response : Response :=
  {| status := {| code := ErrorCode.Locked; has_error := true |};
     data := nullptr |}.

(** [Device::read].  [config.timeout] of the header is [timeout_ms],
    the only timeout of [Configuration].  The result is [None] when
    [lock] points to no lock (the header's behaviour is undefined). *)
Definition read (d : Device) (w : World) : option (Response * Device * World) :=
  match lock d with
  | Some l =>
      lk ← locks w !! l;
      let '(acquired, w) :=
        if timed lk then try_lock_for l lk (timeout_ms (config d)) w
        else try_lock l lk w in
      if negb acquired then Some (locked_response, d, w)
      else Some (read_body d w)
  | None => Some (read_body d w)
  end.

(** Modelled from the spec: what [Device::write], whose body is elided
    in uart.hpp, does once the lock envelope is passed.  Sections 4.2 and
    4.5: the transport write (none for zero bytes, which returns Okay),
    then the release of an acquired lock on every exit path. *)
Definition write_body (d : Device) (data : list Byte.byte) (w : World)
    : ErrorCode.t * Device * World :=
  let '(c, d, w) :=
    match data with
    | [] => (ErrorCode.Okay, d, w)
    | _ :: _ =>
        let '(i, c) := transmit (impl d) data in
        (c, set_impl i d, record_event (Transmit (length data)) w)
    end in
  (c, d, match lock d with Some l => unlock l w | None => w end).

(** Modelled from the spec: [Device::write], whose body is elided in
    uart.hpp: the lock envelope written out in [read] (section 4.2, "this
    logic is identical for read and write"), then [write_body]. *)
Definition write (d : Device) (data : list Byte.byte) (w : World)
    : option (ErrorCode.t * Device * World) :=
  match lock d with
  | Some l =>
      lk ← locks w !! l;
      let '(acquired, w) :=
        if timed lk then try_lock_for l lk (timeout_ms (config d)) w
        else try_lock l lk w in
      if negb acquired then Some (ErrorCode.Locked, d, w)
      else Some (write_body d data w)
  | None => Some (write_body d data w)
  end.

(** Modelled from the spec: the step the three [open] overloads, whose
    bodies are elided in uart.hpp, share.  Sections 4.3 and 4.4:
    reopening an open Device fails without side effects; [open()]
    requires [buffer_size > 0] and fails with BufferUninitialized
    otherwise; every overload fails with NoConnection when the transport
    cannot be acquired; a failed open changes nothing.  On success the
    overload fixes the strategy. *)
Definition open_transport (d : Device) (w : World)
    (success : Impl -> Device * World) : Status * Device * World :=
  match acquire (impl d) with
  | None => (failed ErrorCode.NoConnnection, d, w)
  | Some i => let '(d', w') := success i in (okay, d', w')
  end.

(** Modelled from the spec: [open()], whose body is elided in uart.hpp.
    The Device owns its buffer.  The constructor of uart.hpp has
    allocated it already when [buffer_size > 0]; a Device that holds none
    (after [close]) allocates one of capacity [buffer_size]. *)
Definition open (d : Device) (w : World) : Status * Device * World :=
  if is_open d then (failed reopen_error, d, w)
  else if buffer_size (config d) =? 0 then
    (failed ErrorCode.BufferUninitialized, d, w)
  else
    open_transport d w (fun i =>
      let '(b, h) :=
        match buffer d with
        | Some a => (Some a, heap w)
        | None =>
            let '(a, h) := new_vec (heap w) in
            (Some a, alter (fmap (reserve (buffer_size (config d)))) a h)
        end in
      ({| config := config d; lock := lock d; buffer := b;
          callback := callback d; mode := OwnedBuffer; impl := i |},
       set_heap h w)).



(** Modelled from the spec: [Device::close], whose body is elided in
    uart.hpp.  Section 4.4: closing a closed Device is a no-op returning
    Okay; closing an open one releases the owned buffer if present,
    releases the transport and clears the callback. *)
Definition close (d : Device) (w : World) : Status * Device * World :=
  match mode d with
  | Closed => (okay, d, w)
  | OwnedBuffer =>
      (okay,
       {| config := config d; lock := lock d; buffer := nullptr;
          callback := None; mode := Closed; impl := release (impl d) |},
       match buffer d with
       | Some a => set_heap (delete_vec a (heap w)) w
       | None => w
       end)
  | CallerBuffer =>
      (okay,
       {| config := config d; lock := lock d; buffer := nullptr;
          callback := None; mode := Closed; impl := release (impl d) |}, w)
  | Callback =>
      (okay,
       {| config := config d; lock := lock d; buffer := buffer d;
          callback := None; mode := Closed; impl := release (impl d) |}, w)
  end.

(** [Device::~Device]: [if (this->is_open()) this->close();]. *)
Definition Device_dtor (d : Device) (w : World) : World :=
  if is_open d then snd (close d w) else w.

End Device.



(** ** A simulated platform for the examples

    The implementation members are the device identifier and whether the
    transport handle is held.  Device 0 is not connected.  The elided
    statements of [read] append the byte 0x41 to the vector behind
    [buffer], record the transport read and fall through. *)
Definition sim_receive (v : Vec) : Vec :=
  {| bytes := bytes v ++ [Byte.x41]; capacity := capacity v |}.

Definition sim_read (d : DeviceOf (N * bool) nat) (w : World)
    : option Response * DeviceOf (N * bool) nat * World :=
  (None, d,
   record_event Receive
     (match buffer d with
      | Some a => set_heap (alter (fmap sim_receive) a (heap w)) w
      | None => w
      end)).

Definition sim : Platform := {|
  Impl := N * bool;
  ReadCallback := nat;
  DEFAULT_BUFFER_SIZE := 64;
  ctor_impl := fun _ id => (id, false);
  read_impl := sim_read;
  acquire := fun i => if fst i =? 0 then None else Some (fst i, true);
  release := fun i => (fst i, false);
  transmit := fun i _ => (i, ErrorCode.Okay);
  reopen_error := ErrorCode.Other 0
|}.

Definition sim_config (buffer_size : N) : Configuration :=
  {| baud_rate := 9600; data_bits_size := 8; parity_type := Parity.None;
     stop_bits := StopBits.Value 1; bit_order := BitOrder.LeastSignificant;
     timeout_ms := 50; buffer_size := buffer_size |}.

(** A world with an empty heap and one lock, at address 0. *)
Definition sim_world (lk : Lockable) : World :=
  {| heap := []; locks := [lk]; clock := 0; trace := [] |}.

Definition plain_free : Lockable := {| timed := false; state := Free |}.
Definition plain_busy : Lockable := {| timed := false; state := HeldElsewhere 1000 |}.
Definition timed_free : Lockable := {| timed := true; state := Free |}.
Definition timed_busy : Lockable := {| timed := true; state := HeldElsewhere 1000 |}.

(** [Device(config, device_id, lock)] on the simulated platform, in a
    world whose only lock is [lk]. *)
Definition sim_device (buffer_size device_id : N) (lock : option nat)
    (lk : Lockable) : @Device sim * World :=
  Device_ctor (P := sim) nullptr (sim_config buffer_size) device_id lock
    (sim_world lk).

(** ** Properties *)

(** *** The no-argument open and a zero buffer size *)

(** C1: on a Closed Device whose configuration has [buffer_size = 0], the
    no-argument [open()] fails with BufferUninitialized, and the Device
    (still Closed) and the world are what they were. *)
Theorem open_zero_buffer_size_fails {P : Platform} (d : Device) (w : World) :
  mode d = Closed ->
  buffer_size (config d) = 0 ->
  open d w =
    ({| code := ErrorCode.BufferUninitialized; has_error := true |}, d, w)
  /\ mode (snd (fst (open d w))) = Closed.
Proof.
  intros Hclosed Hsize.
  assert (E : open d w = (failed ErrorCode.BufferUninitialized, d, w)).
  { unfold open, is_open. rewrite Hclosed, Hsize. reflexivity. }
  rewrite E. split; [reflexivity | exact Hclosed].
Qed.

Lemma open_zero_buffer_size_fails_witness :
  let d := fst (sim_device 0 1 None plain_free) in
  let w := snd (sim_device 0 1 None plain_free) in
  mode d = Closed /\ buffer_size (config d) = 0 /\
  open d w =
    ({| code := ErrorCode.BufferUninitialized; has_error := true |}, d, w).
Proof.
  split; [reflexivity | split; [reflexivity |]].
  apply (@open_zero_buffer_size_fails sim
           (fst (sim_device 0 1 None plain_free))
           (snd (sim_device 0 1 None plain_free))); reflexivity.
Defined.

(** *** A failed open *)




(** *** Closing a closed Device *)

(** C8: [close()] on a Closed Device returns Okay and changes neither the
    Device nor the world; closing again gives the same. *)
Theorem close_closed_is_noop {P : Platform} (d : Device) (w : World) :
  mode d = Closed ->
  close d w = ({| code := ErrorCode.Okay; has_error := false |}, d, w).
Proof. intros Hclosed. unfold close. rewrite Hclosed. reflexivity. Qed.

(** Closing twice is closing once: whatever the Device, a second
    [close()] returns Okay and changes nothing. *)
Lemma close_twice {P : Platform} (d : Device) (w : World) :
  let '(_, d1, w1) := close d w in close d1 w1 = (okay, d1, w1).
Proof. unfold close. destruct (mode d) eqn:E; simpl; now rewrite ?E. Qed.

Lemma close_closed_is_noop_witness :
  let d := fst (sim_device 16 1 None plain_free) in
  let w := snd (sim_device 16 1 None plain_free) in
  mode d = Closed /\
  close d w = ({| code := ErrorCode.Okay; has_error := false |}, d, w).
Proof.
  split; [reflexivity |].
  apply (@close_closed_is_noop sim
           (fst (sim_device 16 1 None plain_free))
           (snd (sim_device 16 1 None plain_free))).
  reflexivity.
Defined.

(** *** The lock envelope *)

Lemma try_lock_for_bounded (l : nat) (lk : Lockable) (d : N) (w : World) :
  trace (snd (try_lock_for l lk d w)) = trace w ++ [TryLockFor l d]
  /\ heap (snd (try_lock_for l lk d w)) = heap w
  /\ clock (snd (try_lock_for l lk d w)) <= clock w + d
  /\ (fst (try_lock_for l lk d w) = false ->
      clock (snd (try_lock_for l lk d w)) = clock w + d).
Proof.
  unfold try_lock_for. destruct (state lk) as [| |r]; simpl.
  - repeat split; [lia | discriminate].
  - repeat split; lia.
  - destruct (N.leb_spec r d); simpl; repeat split; try lia; discriminate.
Qed.

Lemma try_lock_for_times_out (l : nat) (lk : Lockable) (d r : N) (w : World) :
  state lk = HeldElsewhere r -> d < r -> fst (try_lock_for l lk d w) = false.
Proof.
  intros Hs Hlt. unfold try_lock_for. rewrite Hs.
  destruct (N.leb_spec r d); [lia | reflexivity].
Qed.

(** C2: with a plain (non-timed) lock that is held elsewhere, [read()]
    and [write()] return Locked, [read()] with null data.  The clock has
    not advanced (no waiting); the Device, the heap and the locks are
    unchanged and the only event is the [try_lock()] (no I/O). *)
Theorem plain_lock_held_elsewhere_returns_Locked {P : Platform}
    (d : Device) (w : World) (l : nat) (lk : Lockable) (r : N)
    (bs : list Byte.byte) :
  lock d = Some l ->
  locks w !! l = Some lk ->
  timed lk = false ->
  state lk = HeldElsewhere r ->
  let w' := {| heap := heap w; locks := locks w; clock := clock w;
               trace := trace w ++ [TryLock l] |} in
  read d w =
    Some ({| status := {| code := ErrorCode.Locked; has_error := true |};
             data := nullptr |}, d, w')
  /\ write d bs w = Some (ErrorCode.Locked, d, w').
Proof.
  intros Hl Hlk Hplain Hheld. unfold read, write, try_lock.
  rewrite Hl, Hlk. simpl. rewrite Hplain, Hheld. simpl. split; reflexivity.
Qed.

Lemma plain_lock_held_elsewhere_returns_Locked_witness :
  let d := fst (sim_device 16 1 (Some 0%nat) plain_busy) in
  let w := snd (sim_device 16 1 (Some 0%nat) plain_busy) in
  read d w =
    Some ({| status := {| code := ErrorCode.Locked; has_error := true |};
             data := nullptr |}, d,
          {| heap := heap w; locks := locks w; clock := clock w;
             trace := trace w ++ [TryLock 0%nat] |})
  /\ write d [Byte.x41; Byte.x42] w =
       Some (ErrorCode.Locked, d,
             {| heap := heap w; locks := locks w; clock := clock w;
                trace := trace w ++ [TryLock 0%nat] |}).
Proof.
  apply (@plain_lock_held_elsewhere_returns_Locked sim
           (fst (sim_device 16 1 (Some 0%nat) plain_busy))
           (snd (sim_device 16 1 (Some 0%nat) plain_busy))
           0%nat plain_busy 1000 [Byte.x41; Byte.x42]); reflexivity.
Defined.

(** C3: with a timed lock, [read()] and [write()] acquire it with
    [try_lock_for(config.timeout_ms)]: that call is the first event, and
    the clock advances by [timeout_ms] at most.  When the acquisition
    times out (as it does when the lock is held elsewhere for longer than
    [timeout_ms]), both return Locked after exactly [timeout_ms], with the
    Device and the heap unchanged and no transport event. *)
Theorem timed_lock_bounded_by_timeout_ms {P : Platform}
    (d : Device) (w : World) (l : nat) (lk : Lockable) (bs : list Byte.byte) :
  lock d = Some l ->
  locks w !! l = Some lk ->
  timed lk = true ->
  let bound := timeout_ms (config d) in
  let attempt := try_lock_for l lk bound w in
  read d w =
    Some (if fst attempt then read_body d (snd attempt)
          else (locked_response, d, snd attempt))
  /\ write d bs w =
       Some (if fst attempt then write_body d bs (snd attempt)
             else (ErrorCode.Locked, d, snd attempt))
  /\ trace (snd attempt) = trace w ++ [TryLockFor l bound]
  /\ clock (snd attempt) <= clock w + bound
  /\ (forall r, state lk = HeldElsewhere r -> bound < r -> fst attempt = false)
  /\ (fst attempt = false ->
      read d w = Some (locked_response, d, snd attempt)
      /\ write d bs w = Some (ErrorCode.Locked, d, snd attempt)
      /\ heap (snd attempt) = heap w
      /\ clock (snd attempt) = clock w + bound).
Proof.
  intros Hl Hlk Htimed bound attempt.
  assert (Hr : read d w =
    Some (if fst attempt then read_body d (snd attempt)
          else (locked_response, d, snd attempt))).
  { unfold read. rewrite Hl, Hlk. simpl. rewrite Htimed.
    fold bound attempt. now destruct attempt as [[] w1]. }
  assert (Hw : write d bs w =
    Some (if fst attempt then write_body d bs (snd attempt)
          else (ErrorCode.Locked, d, snd attempt))).
  { unfold write. rewrite Hl, Hlk. simpl. rewrite Htimed.
    fold bound attempt. now destruct attempt as [[] w1]. }
  destruct (try_lock_for_bounded l lk bound w) as (Htr & Hh & Hc & Hto).
  split; [exact Hr | split; [exact Hw | split; [exact Htr | split;
    [exact Hc | split]]]].
  - intros r Hs Hlt. exact (try_lock_for_times_out l lk bound r w Hs Hlt).
  - intros Hout. rewrite Hr, Hw. fold attempt in Hto. rewrite Hout.
    split; [reflexivity | split; [reflexivity | split;
      [exact Hh | exact (Hto Hout)]]].
Qed.

Lemma timed_lock_bounded_by_timeout_ms_witness :
  let d := fst (sim_device 16 1 (Some 0%nat) timed_busy) in
  let w := snd (sim_device 16 1 (Some 0%nat) timed_busy) in
  let w' := {| heap := heap w;
               locks := [{| timed := true; state := HeldElsewhere 950 |}];
               clock := 50; trace := [TryLockFor 0%nat 50] |} in
  read d w = Some (locked_response, d, w')
  /\ write d [Byte.x41] w = Some (ErrorCode.Locked, d, w').
Proof.
  destruct (@timed_lock_bounded_by_timeout_ms sim
              (fst (sim_device 16 1 (Some 0%nat) timed_busy))
              (snd (sim_device 16 1 (Some 0%nat) timed_busy))
              0%nat timed_busy [Byte.x41] eq_refl eq_refl eq_refl)
    as (_ & _ & _ & _ & _ & Hout).
  destruct (Hout eq_refl) as (Hr & Hw & _).
  split; [exact Hr | exact Hw].
Defined.

(** *** The constructor and the owned buffer *)

Lemma reserve_empty_vec (n : N) :
  reserve n empty_vec = {| bytes := []; capacity := n |}.
Proof.
  unfold reserve, empty_vec. simpl.
  destruct (N.ltb_spec 0 n) as [Hlt|Hge]; [reflexivity |].
  f_equal. lia.
Qed.

Lemma new_vec_reserve (n : N) (h : Heap) :
  alter (fmap (reserve n)) (length h) (h ++ [Some empty_vec])
  = h ++ [Some {| bytes := []; capacity := n |}].
Proof.
  rewrite <- (Nat.add_0_r (length h)) at 1. rewrite alter_app_r. simpl.
  now rewrite reserve_empty_vec.
Qed.

Lemma constructor_without_buffer {P : Platform} (uninit lk : option nat)
    (cfg : Configuration) (id : N) (w : World) :
  buffer_size cfg = 0 ->
  Device_ctor uninit cfg id lk w =
    ({| config := cfg; lock := lk; buffer := uninit; callback := None;
        mode := Closed; impl := ctor_impl cfg id |}, set_heap (heap w) w).
Proof. intros H. unfold Device_ctor. rewrite H. reflexivity. Qed.

(** C7, as stated, fails: the Device constructed with [buffer_size = 16]
    owns an allocated vector before any [open] (it is Closed), and the
    capacity reserved is [DEFAULT_BUFFER_SIZE] (64 on the simulated
    platform), not 16. *)
Lemma constructor_allocates_before_open :
  let d := fst (sim_device 16 1 None plain_free) in
  let w := snd (sim_device 16 1 None plain_free) in
  buffer_size (config d) = 16
  /\ mode d = Closed
  /\ buffer d = Some 0%nat
  /\ heap w = [Some {| bytes := []; capacity := 64 |}].
Proof. vm_compute. repeat split. Qed.

(** The constructor with [buffer_size > 0], as one equation. *)
Lemma Device_ctor_with_buffer {P : Platform}
    (uninit lk : option nat) (cfg : Configuration) (id : N) (w : World) :
  0 < buffer_size cfg ->
  Device_ctor uninit cfg id lk w =
    ({| config := cfg; lock := lk; buffer := Some (length (heap w));
        callback := None; mode := Closed; impl := ctor_impl cfg id |},
     {| heap := heap w ++ [Some {| bytes := [];
                                   capacity := DEFAULT_BUFFER_SIZE |}];
        locks := locks w; clock := clock w; trace := trace w |}).
Proof.
  intros Hpos. unfold Device_ctor, new_vec.
  destruct (N.ltb_spec 0 (buffer_size cfg)) as [_|Hle]; [|lia].
  rewrite new_vec_reserve. reflexivity.
Qed.

(** C7, amended: for every Configuration with [buffer_size > 0] the
    constructor, before any [open] (the Device is Closed), allocates one
    vector that the Device owns: [buffer] points to it, it is empty and
    [DEFAULT_BUFFER_SIZE] is reserved for it, and the rest of the heap is
    as before.  [buffer_size] is read there, and only to decide whether
    to allocate. *)
Theorem constructor_allocates_owned_buffer {P : Platform}
    (uninit lk : option nat) (cfg : Configuration) (id : N) (w : World) :
  0 < buffer_size cfg ->
  let '(d, w') := Device_ctor uninit cfg id lk w in
  config d = cfg
  /\ mode d = Closed
  /\ buffer d = Some (length (heap w))
  /\ heap w' =
       heap w ++ [Some {| bytes := []; capacity := DEFAULT_BUFFER_SIZE |}]
  /\ heap w' !! length (heap w) =
       Some (Some {| bytes := []; capacity := DEFAULT_BUFFER_SIZE |}).
Proof.
  intros Hpos. rewrite (Device_ctor_with_buffer uninit lk cfg id w Hpos).
  repeat split.
  exact (list_lookup_middle (heap w) [] _ _ eq_refl).
Qed.

Lemma constructor_allocates_owned_buffer_witness :
  0 < buffer_size (sim_config 16) /\
  (let '(d, w') := sim_device 16 1 None plain_free in
   config d = sim_config 16
   /\ mode d = Closed
   /\ buffer d = Some 0%nat
   /\ heap w' = [Some {| bytes := []; capacity := 64 |}]
   /\ heap w' !! 0%nat = Some (Some {| bytes := []; capacity := 64 |})).
Proof.
  split; [reflexivity |].
  apply (@constructor_allocates_owned_buffer sim None None (sim_config 16) 1
           (sim_world plain_free)).
  reflexivity.
Defined.

(** ** Further properties of the constructor and the destructor *)

(** *** The constructor *)

(** X3: two Devices constructed one after the other, each with
    [buffer_size > 0], own different vectors, and both vectors are on
    the heap afterwards. *)
Theorem constructors_own_distinct_buffers {P : Platform}
    (u1 u2 lk1 lk2 : option nat) (cfg1 cfg2 : Configuration) (id1 id2 : N)
    (w : World) :
  0 < buffer_size cfg1 ->
  0 < buffer_size cfg2 ->
  let '(d1, w1) := Device_ctor u1 cfg1 id1 lk1 w in
  let '(d2, w2) := Device_ctor u2 cfg2 id2 lk2 w1 in
  buffer d1 = Some (length (heap w))
  /\ buffer d2 = Some (S (length (heap w)))
  /\ buffer d1 <> buffer d2
  /\ heap w2 !! length (heap w) =
       Some (Some {| bytes := []; capacity := DEFAULT_BUFFER_SIZE |})
  /\ heap w2 !! S (length (heap w)) =
       Some (Some {| bytes := []; capacity := DEFAULT_BUFFER_SIZE |}).
Proof.
  intros H1 H2.
  rewrite (Device_ctor_with_buffer u1 lk1 cfg1 id1 w H1).
  rewrite (Device_ctor_with_buffer u2 lk2 cfg2 id2 _ H2). simpl.
  rewrite length_app. simpl. rewrite Nat.add_1_r.
  split; [reflexivity | split; [reflexivity | split; [| split]]].
  - intros E. inversion E. lia.
  - apply lookup_app_l_Some.
    exact (list_lookup_middle (heap w) [] _ _ eq_refl).
  - rewrite <- app_assoc. simpl.
    rewrite (lookup_app_r (heap w)); [| lia].
    replace (S (length (heap w)) - length (heap w))%nat with 1%nat by lia.
    reflexivity.
Qed.

Lemma constructors_own_distinct_buffers_witness :
  let '(d1, w1) := sim_device 16 1 None plain_free in
  let '(d2, w2) :=
    Device_ctor (P := sim) None (sim_config 8) 2 None w1 in
  buffer d1 = Some 0%nat
  /\ buffer d2 = Some 1%nat
  /\ buffer d1 <> buffer d2
  /\ heap w2 !! 0%nat = Some (Some {| bytes := []; capacity := 64 |})
  /\ heap w2 !! 1%nat = Some (Some {| bytes := []; capacity := 64 |}).
Proof.
  exact (@constructors_own_distinct_buffers sim None None None None
           (sim_config 16) (sim_config 8) 1 2 (sim_world plain_free)
           eq_refl eq_refl).
Defined.

(** *** The destructor *)

(** X14: the destructor calls [close()] only on an open Device.  A
    Device constructed with [buffer_size > 0] and destroyed without ever
    being opened is not closed: the world is untouched, and the vector
    its constructor allocated is still on the heap. *)
Theorem destructor_of_unopened_device_keeps_buffer {P : Platform}
    (uninit lk : option nat) (cfg : Configuration) (id : N) (w : World) :
  0 < buffer_size cfg ->
  let '(d, w1) := Device_ctor uninit cfg id lk w in
  Device_dtor d w1 = w1
  /\ heap (Device_dtor d w1) !! length (heap w) =
       Some (Some {| bytes := []; capacity := DEFAULT_BUFFER_SIZE |}).
Proof.
  intros Hpos. rewrite (Device_ctor_with_buffer uninit lk cfg id w Hpos).
  unfold Device_dtor, is_open. simpl. split; [reflexivity |].
  exact (list_lookup_middle (heap w) [] _ _ eq_refl).
Qed.

Lemma destructor_of_unopened_device_keeps_buffer_witness :
  let '(d, w1) := sim_device 16 1 None plain_free in
  Device_dtor d w1 = w1
  /\ heap (Device_dtor d w1) !! 0%nat =
       Some (Some {| bytes := []; capacity := 64 |}).
Proof.
  exact (@destructor_of_unopened_device_keeps_buffer sim None None
           (sim_config 16) 1 (sim_world plain_free) eq_refl).
Defined.
